(** * novel_crawler: chapter acquisition pipeline and EPUB assembly

    A shallow embedding of [novel_info.py] and [epub_generator.py]:
    the retrying fetcher, the catalog and chapter readers, the content
    normaliser, the thread-pool downloader, the file name derivation of
    [main] and the XHTML formatting of the EPUB generator. *)

From Stdlib Require Import ZArith NArith List Lia Bool String Ascii.
From Stdlib Require Import Numbers.DecimalString Sorting.Sorted.
From stdpp Require Import base list.
Import ListNotations.

Local Open Scope Z_scope.

(* ===================================================================== *)
(** * Python strings *)
(* ===================================================================== *)

(** A Python [str] is a sequence of Unicode code points.  The source is
    full of CJK literals and [str.strip] removes CJK spacing such as
    U+3000, so characters are code points, not bytes. *)
Module Py.

Definition char := N.
Definition str := list char.

(** ** Literals

    Literals are written as UTF-8 text and decoded to code points. *)

Definition bytes_of (s : string) : list N :=
  List.map N_of_ascii (list_ascii_of_string s).

Definition cont (b : N) : N := (b - 128)%N.

Fixpoint utf8_decode (bs : list N) : str :=
  match bs with
  | [] => []
  | b0 :: r0 =>
    if (b0 <? 128)%N then b0 :: utf8_decode r0
    else if (b0 <? 224)%N then
      match r0 with
      | b1 :: r1 => ((b0 - 192) * 64 + cont b1)%N :: utf8_decode r1
      | _ => []
      end
    else if (b0 <? 240)%N then
      match r0 with
      | b1 :: b2 :: r2 =>
        ((b0 - 224) * 4096 + cont b1 * 64 + cont b2)%N :: utf8_decode r2
      | _ => []
      end
    else
      match r0 with
      | b1 :: b2 :: b3 :: r3 =>
        ((b0 - 240) * 262144 + cont b1 * 4096 + cont b2 * 64 + cont b3)%N
          :: utf8_decode r3
      | _ => []
      end
  end.

Definition lit (s : string) : str := utf8_decode (bytes_of s).

Definition nl : str := [10%N].
Definition dquote : str := [34%N].

(** ** [str(int)]: decimal rendering, as used by f-strings *)

Definition str_of_int (z : Z) : str :=
  bytes_of (NilZero.string_of_int (Z.to_int z)).

(** ** Equality *)

Definition char_eqb (a b : char) : bool := N.eqb a b.

Fixpoint str_eqb (a b : str) : bool :=
  match a, b with
  | [], [] => true
  | x :: a', y :: b' => char_eqb x y && str_eqb a' b'
  | _, _ => false
  end.

(** ** [s.startswith(p)] *)

Fixpoint startswith (p s : str) : bool :=
  match p, s with
  | [], _ => true
  | x :: p', y :: s' => char_eqb x y && startswith p' s'
  | _ :: _, [] => false
  end.

(** ** [k in s]: substring test *)

Fixpoint contains (k s : str) : bool :=
  startswith k s ||
  match s with
  | [] => false
  | _ :: s' => contains k s'
  end.

(** ** [sep.join(parts)] *)

Fixpoint join (sep : str) (parts : list str) : str :=
  match parts with
  | [] => []
  | [p] => p
  | p :: rest => p ++ sep ++ join sep rest
  end.

(** ** [s.split(c)] for a one-character separator

    The result always has at least one field; a separator at the end
    yields a trailing empty field. *)

Fixpoint split (c : char) (s : str) : list str :=
  match s with
  | [] => [[]]
  | x :: s' =>
    if char_eqb x c then [] :: split c s'
    else match split c s' with
         | [] => [[x]]
         | f :: fs => (x :: f) :: fs
         end
  end.

(** ** [s.strip()]

    With no argument Python strips the characters for which
    [str.isspace] holds. *)

Definition isspace (c : char) : bool :=
  ((9 <=? c) && (c <=? 13) || (28 <=? c) && (c <=? 32) ||
   (c =? 133) || (c =? 160) || (c =? 5760) ||
   (8192 <=? c) && (c <=? 8202) || (c =? 8232) || (c =? 8233) ||
   (c =? 8239) || (c =? 8287) || (c =? 12288))%N.

Fixpoint lstrip (s : str) : str :=
  match s with
  | [] => []
  | c :: s' => if isspace c then lstrip s' else s
  end.

Definition rstrip (s : str) : str := rev (lstrip (rev s)).

Definition strip (s : str) : str := rstrip (lstrip s).

(** ** [s.replace(old, new)]

    Occurrences are replaced left to right without overlap; with an empty
    [old] Python inserts [new] around every character. *)

Fixpoint replace_from (old new : str) (skip : nat) (s : str) : str :=
  match s with
  | [] => []
  | c :: s' =>
    match skip with
    | S k => replace_from old new k s'
    | O =>
      if startswith old s
      then new ++ replace_from old new (length old - 1)%nat s'
      else c :: replace_from old new O s'
    end
  end.

Definition replace (old new s : str) : str :=
  match old with
  | [] => new ++ flat_map (fun c => c :: new) s
  | _ :: _ => replace_from old new O s
  end.

(** ** Truthiness of a string: empty is false *)

Definition truthy (s : str) : bool :=
  match s with [] => false | _ :: _ => true end.

End Py.

Import Py.

(** ** Properties of strings used in the statements *)

(** A substring: some text before, the key, some text after. *)
Definition substring_of (k s : str) : Prop :=
  exists pre post, s = pre ++ k ++ post.

Definition no_leading_space (s : str) : Prop :=
  match s with
  | [] => True
  | c :: _ => isspace c = false
  end.

(** No white space at either end: what [strip] leaves. *)
Definition trimmed (s : str) : Prop :=
  no_leading_space s /\ no_leading_space (rev s).

Definition all_space (s : str) : Prop :=
  List.Forall (fun c => isspace c = true) s.

(** A line the normaliser is to keep: not empty, and free of every
    boilerplate marker. *)
Definition survives (markers : list str) (line : str) : Prop :=
  line <> [] /\ forall k, In k markers -> ~ substring_of k line.

(** The lines of a text: the fields between its newlines.  A text has
    exactly one such decomposition. *)
Definition lines_of (text : str) (lines : list str) : Prop :=
  lines <> [] /\
  List.Forall (fun l => ~ In 10%N l) lines /\
  join nl lines = text.

(* ===================================================================== *)
(** * Exceptions, effects and the computation monad *)
(* ===================================================================== *)

(** Everything the [requests] library raises derives from
    [requests.RequestException]; the constructors are the subclasses the
    fetcher can meet and the base class itself, which line 82 raises
    directly. *)
Inductive RequestException :=
| ConnectionError (msg : str)
| ReadTimeout (msg : str)
| HTTPError (msg : str)
| BaseRequestException (msg : str).

(** The exceptions of the program: those of [requests] and the
    [ValueError]s raised by the readers and by the executor. *)
Inductive Exception :=
| RequestFailed (e : RequestException)
| ValueError (msg : str).

Definition request_exception_str (e : RequestException) : str :=
  match e with
  | ConnectionError msg | ReadTimeout msg | HTTPError msg
  | BaseRequestException msg => msg
  end.

(** [str(e)] *)
Definition exception_str (e : Exception) : str :=
  match e with
  | RequestFailed r => request_exception_str r
  | ValueError msg => msg
  end.

(** What a call does besides computing its value. *)
Inductive Effect :=
| SleepPoliteness                 (* time.sleep(random.uniform(0.5, 1)) *)
| SleepRetry                      (* time.sleep(1) *)
| Get (url : str)                 (* requests.get(url, ...) *)
| Printed (msg : str)
| ExecutorCreated (max_workers : Z)
| Submitted (index : nat)
| ExecutorShutdown.

Inductive Outcome (A : Type) :=
| Return (a : A)
| Raise (e : Exception).
Arguments Return {A} a.
Arguments Raise {A} e.

(** A computation: the effects it performed, in order, and how it ended. *)
Definition M (A : Type) : Type := (list Effect * Outcome A)%type.

Definition ret {A} (a : A) : M A := ([], Return a).
Definition raise {A} (e : Exception) : M A := ([], Raise e).
Definition tell (effects : list Effect) : M unit := (effects, Return tt).

Definition bind {A B} (m : M A) (k : A -> M B) : M B :=
  match m with
  | (log, Return a) => let (log', r) := k a in (log ++ log', r)
  | (log, Raise e) => (log, Raise e)
  end.

(** [try: m except Exception as e: handler e] *)
Definition try_except {A} (m : M A) (handler : Exception -> M A) : M A :=
  match m with
  | (log, Return a) => (log, Return a)
  | (log, Raise e) => let (log', r) := handler e in (log ++ log', r)
  end.

(** [try: m except requests.RequestException as e: handler e]: any other
    exception passes through. *)
Definition try_except_request {A} (m : M A)
  (handler : RequestException -> M A) : M A :=
  match m with
  | (log, Raise (RequestFailed e)) =>
    let (log', r) := handler e in (log ++ log', r)
  | _ => m
  end.

Declare Scope py_scope.
Delimit Scope py_scope with py.
Notation "x <- m ;; k" := (bind m (fun x => k))
  (at level 100, m at next level, right associativity) : py_scope.
Notation "m ;; k" := (bind m (fun _ => k))
  (at level 100, right associativity) : py_scope.
Local Open Scope py_scope.

(* ===================================================================== *)
(** * The fetcher: [NovelInfo._request_with_retry] *)
(* ===================================================================== *)

Module Response.
Record t := mk {
  status_code : Z;
  reason : str;
  url : str;
  text : str;   (* the body decoded as utf-8 *)
}.
End Response.

(** What one physical [requests.get] does: it raises, or it answers. *)
Inductive Reply :=
| Fails (e : RequestException)
| Answers (r : Response.t).

(** The network as one call of the fetcher sees it: the reply to its
    attempt number 0, 1, 2, ... *)
Definition Network := nat -> Reply.

(** [response.raise_for_status()]: statuses 400..599 raise [HTTPError]. *)
Definition raise_for_status (r : Response.t) : option RequestException :=
  let code := Response.status_code r in
  if (400 <=? code) && (code <? 500) then
    Some (HTTPError (str_of_int code ++ lit " Client Error: " ++
                     Response.reason r ++ lit " for url: " ++ Response.url r))
  else if (500 <=? code) && (code <? 600) then
    Some (HTTPError (str_of_int code ++ lit " Server Error: " ++
                     Response.reason r ++ lit " for url: " ++ Response.url r))
  else None.

(** Lines 62-73: the body of the [try] of one attempt. *)
Definition attempt_once (net : Network) (url : str) (attempt : nat)
  : M Response.t :=
  tell [SleepPoliteness; Get url] ;;
  match net attempt with
  | Fails e => raise (RequestFailed e)
  | Answers response =>
    match raise_for_status response with
    | Some e => raise (RequestFailed e)
    | None => ret response
    end
  end.

(** [range(n)] *)
Definition range (n : Z) : list nat := seq 0 (Z.to_nat n).

(** Lines 60-82: the [for] loop over the attempts still to make, then
    the [raise] that follows the loop. *)
Fixpoint retry_loop (net : Network) (url : str) (max_retries : Z)
  (attempts : list nat) : M Response.t :=
  match attempts with
  | [] =>
    raise (RequestFailed
             (BaseRequestException (lit "All retry attempts failed")))
  | attempt :: rest =>
    try_except_request (attempt_once net url attempt)
      (fun e =>
         let last_exception := e in
         tell [Printed (lit "Attempt " ++ str_of_int (Z.of_nat attempt + 1)
                      ++ lit " failed: " ++ request_exception_str e)] ;;
         if Z.of_nat attempt =? max_retries - 1
         then raise (RequestFailed last_exception)
         else tell [SleepRetry] ;; retry_loop net url max_retries rest)
  end.

Definition _request_with_retry (net : Network) (url : str) (max_retries : Z)
  : M Response.t :=
  retry_loop net url max_retries (range max_retries).

(** The physical requests a computation made. *)
Definition is_get (e : Effect) : bool :=
  match e with Get _ => true | _ => false end.

Definition attempts_made {A} (m : M A) : nat :=
  length (List.filter is_get (fst m)).

(** What attempt [k] ends in: the error it raises, or the response. *)
Definition attempt_error (net : Network) (k : nat) : option RequestException :=
  match net k with
  | Fails e => Some e
  | Answers r => raise_for_status r
  end.

(* ===================================================================== *)
(** * The records of [novel_info.py] *)
(* ===================================================================== *)

Module ChapterInfo.
Record t := mk { title : str; url : str }.
End ChapterInfo.

Module ChapterContent.
Record t := mk { title : str; content : str; error : option str }.
End ChapterContent.

(** [NovelData] is declared [total=False]: the key ['error'] is present
    only in the dictionary of the failure branch. *)
Module NovelData.
Record t := mk {
  title : str;
  author : str;
  status : str;
  first_chapter : option str;
  last_chapter : option str;
  total_chapters : Z;
  chapters : list ChapterInfo.t;
  error : option str;   (* [None]: the key is absent *)
}.
End NovelData.

(** The dictionaries [download_single] returns. *)
Module Entry.
Record t := mk { title : str; content : str }.
End Entry.

(* ===================================================================== *)
(** * The page parser: what the program asks of BeautifulSoup *)
(* ===================================================================== *)

(** An [<a>] element matched by [soup.select]. *)
Module Anchor.
Record t := mk { href : option str; text : str }.
End Anchor.

Class PageParser := {
  (** [soup.select_one(selector)] on the page [html]: the [.text] of the
      first match, [None] when nothing matches. *)
  select_one : str -> str -> option str;
  (** [soup.select(selector)]: the matched anchors in document order. *)
  select : str -> str -> list Anchor.t;
}.

(* ===================================================================== *)
(** * The normaliser: [NovelInfo._clean_content] *)
(* ===================================================================== *)

Definition ad_keywords : list str :=
  [ lit "本章完";
    lit "手機用戶請訪問";
    lit "czbooks.net";
    lit "////";
    lit "----";
    lit "＊＊＊" ].

(** [any(keyword in line for keyword in ad_keywords)] *)
Definition has_ad_keyword (line : str) : bool :=
  existsb (fun keyword => contains keyword line) ad_keywords.

Definition _clean_content (content : str) : str :=
  let lines := List.map strip (split 10%N content) in
  let lines := List.filter truthy lines in
  let cleaned_lines :=
    fold_left
      (fun cleaned_lines line =>
         if negb (has_ad_keyword line)
         then cleaned_lines ++ [line]
         else cleaned_lines)
      lines [] in
  join nl cleaned_lines.

(* ===================================================================== *)
(** * The readers: [get_info] and [get_chapter_content] *)
(* ===================================================================== *)

Section Readers.

Context `{PageParser}.

Definition base_url : str := lit "https://czbooks.net".

(** Lines 105-114: one turn of the loop over the matched anchors. *)
Definition chapter_of_anchor (chapter : Anchor.t) : ChapterInfo.t :=
  let href := from_option id [] (Anchor.href chapter) in
  let href :=
    if startswith (lit "//czbooks.net") href
    then replace (lit "//czbooks.net") [] href
    else href in
  let chapter_url := base_url ++ href in
  ChapterInfo.mk (strip (Anchor.text chapter)) chapter_url.

Definition status_selector : str :=
  lit ".novel-detail .state td:contains(" ++ dquote ++ lit "連載狀態"
    ++ dquote ++ lit ") + td".

(** Lines 87-139: the body of the [try] of [get_info]. *)
Definition get_info_body (net : Network) (self_url : str) : M NovelData.t :=
  response <- _request_with_retry net self_url 3 ;;
  let soup := Response.text response in
  match select_one soup (lit ".novel-detail .info .title") with
  | None =>
    tell [Printed (nl ++ lit "DEBUG: 找不到標題")] ;;
    raise (ValueError (lit "無法找書名"))
  | Some title_elem =>
    match select_one soup (lit ".novel-detail .info .author a") with
    | None =>
      tell [Printed (nl ++ lit "DEBUG: 找不到作者")] ;;
      raise (ValueError (lit "無法找到作者資訊"))
    | Some author_elem =>
      let chapters := select soup (lit ".chapter-list li a") in
      let chapter_list :=
        fold_left (fun chapter_list chapter =>
                     chapter_list ++ [chapter_of_anchor chapter])
                  chapters [] in
      match chapter_list with
      | [] =>
        tell [Printed (nl ++ lit "DEBUG: 找不到章節列表")] ;;
        raise (ValueError (lit "無法獲章節列表"))
      | first :: _ =>
        let title :=
          replace (lit "》") [] (replace (lit "《") [] (strip title_elem)) in
        let author := strip author_elem in
        let status :=
          match select_one soup status_selector with
          | None => lit "未知"
          | Some status_elem => strip status_elem
          end in
        ret (NovelData.mk
               title author status
               (Some (ChapterInfo.title first))
               (Some (ChapterInfo.title (List.last chapter_list first)))
               (Z.of_nat (length chapter_list))
               chapter_list
               None)
      end
    end
  end.

Definition get_info (net : Network) (self_url : str) : M NovelData.t :=
  try_except (get_info_body net self_url)
    (fun e =>
       tell [Printed (lit "Error details: " ++ exception_str e)] ;;
       ret (NovelData.mk [] [] [] None None 0 []
              (Some (lit "獲取資訊失敗: " ++ exception_str e)))).

(** Lines 157-183: the body of the [try] of [get_chapter_content]. *)
Definition get_chapter_content_body (net : Network) (chapter_url : str)
  : M ChapterContent.t :=
  response <- _request_with_retry net chapter_url 3 ;;
  let soup := Response.text response in
  match select_one soup (lit ".name") with
  | None => raise (ValueError (lit "無法找到章節標題"))
  | Some title_elem =>
    match select_one soup (lit ".content") with
    | None => raise (ValueError (lit "無法找到章節內容"))
    | Some content_elem =>
      let content := _clean_content content_elem in
      let title := strip title_elem in
      let title :=
        if contains (lit "《") title && contains (lit "》") title
        then strip (List.last (split 12299%N title) [])
        else title in
      ret (ChapterContent.mk title content None)
    end
  end.

Definition get_chapter_content (net : Network) (chapter_url : str)
  : M ChapterContent.t :=
  try_except (get_chapter_content_body net chapter_url)
    (fun e =>
       tell [Printed (lit "Error details: " ++ exception_str e)] ;;
       ret (ChapterContent.mk [] []
              (Some (lit "取章節內容失敗: " ++ exception_str e)))).

(** Truthiness of an [Optional[str]]: [None] and [''] are false. *)
Definition truthy_opt (o : option str) : bool :=
  match o with
  | None => false
  | Some s => truthy s
  end.

(** Lines 225-233: the unit of work of the downloader. *)
Definition download_single (net : Network) (chapter : ChapterInfo.t)
  : M (option Entry.t) :=
  content <- get_chapter_content net (ChapterInfo.url chapter) ;;
  if negb (truthy_opt (ChapterContent.error content))
  then ret (Some (Entry.mk (ChapterContent.title content)
                           (ChapterContent.content content)))
  else ret None.

End Readers.

(* ===================================================================== *)
(** * The downloader: [NovelInfo.download_chapters_parallel] *)
(* ===================================================================== *)

(** The state of one future of the [ThreadPoolExecutor]. *)
Inductive Future :=
| Pending                                       (* queued, no worker yet *)
| Running                                       (* a worker runs the unit *)
| Finished (outcome : Outcome (option Entry.t)).  (* value or exception *)

(** What can happen next.  The main thread submits and collects; workers
    take the oldest queued unit and finish the units they run, in any
    order and at any time. *)
Inductive Event :=
| Submit              (* main thread: the next [executor.submit] *)
| Start               (* a free worker takes the head of the work queue *)
| Finish (i : nat)    (* the worker running unit [i] completes it *)
| Collect.            (* main thread: the next [future.result()] returns *)

Module Pool.
Record t := mk {
  futures : list Future;      (* line 236, in submission order *)
  collected : nat;            (* position of the loop of line 241 *)
  results : list Entry.t;     (* line 222 *)
  raised : option Exception;  (* an exception [future.result()] re-raised *)
}.
Definition init : t := mk [] 0 [] None.
End Pool.

Definition is_pending (f : Future) : bool :=
  match f with Pending => true | _ => false end.
Definition is_running (f : Future) : bool :=
  match f with Running => true | _ => false end.
Definition is_finished (f : Future) : bool :=
  match f with Finished _ => true | _ => false end.

Definition count (p : Future -> bool) (fs : list Future) : nat :=
  length (List.filter p fs).

(** The head of the executor's FIFO work queue. *)
Fixpoint first_pending (fs : list Future) : option nat :=
  match fs with
  | [] => None
  | Pending :: _ => Some O
  | _ :: fs' => option_map S (first_pending fs')
  end.

Section Downloader.

Context `{PageParser}.

(** [nets i] is the network as the unit of chapter [i] meets it. *)
Variable nets : nat -> Network.
Variable chapters : list ChapterInfo.t.
Variable max_workers : Z.

Definition step (ev : Event) (p : Pool.t) : option Pool.t :=
  let fs := Pool.futures p in
  match Pool.raised p with
  | Some _ => None
  | None =>
    match ev with
    | Submit =>
      if (length fs <? length chapters)%nat
      then Some (Pool.mk (fs ++ [Pending]) (Pool.collected p)
                         (Pool.results p) None)
      else None
    | Start =>
      match first_pending fs with
      | Some i =>
        if Z.of_nat (count is_running fs) <? max_workers
        then Some (Pool.mk (<[i := Running]> fs) (Pool.collected p)
                           (Pool.results p) None)
        else None
      | None => None
      end
    | Finish i =>
      match fs !! i, chapters !! i with
      | Some Running, Some chapter =>
        let outcome := snd (download_single (nets i) chapter) in
        Some (Pool.mk (<[i := Finished outcome]> fs) (Pool.collected p)
                      (Pool.results p) None)
      | _, _ => None
      end
    | Collect =>
      (* the loop of line 241 starts once every unit is submitted, and
         [future.result()] blocks until that future is finished *)
      if (length fs =? length chapters)%nat
      then
        match fs !! Pool.collected p with
        | Some (Finished (Return result)) =>
          Some (Pool.mk fs (S (Pool.collected p))
                  (match result with
                   | Some entry => Pool.results p ++ [entry]
                   | None => Pool.results p
                   end)
                  None)
        | Some (Finished (Raise e)) =>
          Some (Pool.mk fs (Pool.collected p) (Pool.results p) (Some e))
        | _ => None
        end
      else None
    end
  end.

(** A schedule is the order in which things happened; it is an execution
    when every event was possible at its turn. *)
Fixpoint run (schedule : list Event) (p : Pool.t) : option Pool.t :=
  match schedule with
  | [] => Some p
  | ev :: rest =>
    match step ev p with
    | Some p' => run rest p'
    | None => None
    end
  end.

(** The [with] block is left: every future was collected, or
    [future.result()] raised. *)
Definition finished (p : Pool.t) : bool :=
  match Pool.raised p with
  | Some _ => true
  | None =>
    (length (Pool.futures p) =? length chapters)%nat &&
    (Pool.collected p =? length chapters)%nat
  end.

Definition banner : Effect :=
  Printed (nl ++ lit "開始多線程下載 (使用 " ++ str_of_int max_workers
         ++ lit " 個線程)...").

(** [download_chapters_parallel chapters max_workers] under a schedule:
    [None] when the schedule is not a complete execution of the call.
    [ThreadPoolExecutor(max_workers=...)] raises [ValueError] for a bound
    that is not positive.  The effects of the units themselves happen in
    the worker threads and are not part of the caller's log. *)
Definition download_chapters_parallel (schedule : list Event)
  : option (M (list Entry.t)) :=
  if max_workers <=? 0
  then Some ([banner],
             Raise (ValueError (lit "max_workers must be greater than 0")))
  else
    match run schedule Pool.init with
    | Some p =>
      if finished p
      then Some ([banner; ExecutorCreated max_workers]
                   ++ List.map Submitted (seq 0 (length (Pool.futures p)))
                   ++ [ExecutorShutdown],
                 match Pool.raised p with
                 | Some e => Raise e
                 | None => Return (Pool.results p)
                 end)
      else None
    | None => None
    end.

(** ** What the batch must be *)

(** The result of the unit of chapter [i]. *)
Definition unit_result (i : nat) : option Entry.t :=
  match chapters !! i with
  | Some chapter =>
    match snd (download_single (nets i) chapter) with
    | Return result => result
    | Raise _ => None
    end
  | None => None
  end.

(** The successful units among the first [k], each with its index. *)
Definition successes (k : nat) : list (nat * Entry.t) :=
  flat_map (fun i => match unit_result i with
                     | Some entry => [(i, entry)]
                     | None => []
                     end)
           (seq 0 k).

End Downloader.

(* ===================================================================== *)
(** * The driver: range selection and file name of [main] *)
(* ===================================================================== *)

(** The menu of lines 273-276 with the numbers read for it. *)
Inductive Choice :=
| DownloadAll                          (* '1' *)
| DownloadRange (start end_ : Z)       (* '2' *)
| DownloadLatest (num : Z).            (* '3' *)

(** Lines 278-302: [(start_idx, end_idx)], or [None] when the input is
    refused and the menu is shown again. *)
Definition select_range (info : NovelData.t) (choice : Choice)
  : option (Z * Z) :=
  let total := NovelData.total_chapters info in
  match choice with
  | DownloadAll =>
    Some (0, Z.of_nat (length (NovelData.chapters info)))
  | DownloadRange start end_ =>
    if (1 <=? start) && (start <=? end_) && (end_ <=? total)
    then Some (start - 1, end_)
    else None
  | DownloadLatest num =>
    if (1 <=? num) && (num <=? total)
    then Some (total - num, total)
    else None
  end.

(** [f"{x}"] of an [Optional[str]] *)
Definition format_opt (o : option str) : str :=
  match o with
  | Some s => s
  | None => lit "None"
  end.

(** Lines 326-342: the name of the EPUB file. *)
Definition filename_of (info : NovelData.t) (start_idx end_idx : Z) : str :=
  if (start_idx =? 0) && (end_idx =? NovelData.total_chapters info)
  then
    if negb (str_eqb (NovelData.status info) (lit "已完結"))
    then
      NovelData.title info ++ lit "_" ++
      lit "第1章到第" ++ str_of_int (NovelData.total_chapters info) ++ lit "章_" ++
      lit "最新" ++ format_opt (NovelData.last_chapter info) ++ lit ".epub"
    else
      NovelData.title info ++ lit "_全本.epub"
  else
    let chapter_range :=
      NovelData.title info ++ lit "_" ++
      lit "第" ++ str_of_int (start_idx + 1) ++ lit "章到第" ++
      str_of_int end_idx ++ lit "章.epub" in
    chapter_range.

(* ===================================================================== *)
(** * The EPUB generator: [epub_generator.py] *)
(* ===================================================================== *)

Definition spaces (n : nat) : str := repeat 32%N n.

(** [EpubGenerator._convert_text_to_html] *)
Definition _convert_text_to_html (text : str) : str :=
  let paragraphs := split 10%N text in
  let html_paragraphs :=
    List.map (fun p => lit "<p>" ++ p ++ lit "</p>")
             (List.filter (fun p => truthy (strip p)) paragraphs) in
  join nl html_paragraphs.

(** [EpubGenerator._format_chapter_content]: the f-string of lines 66-77,
    line by line. *)
Definition _format_chapter_content (title content : str) : str :=
  let html_content :=
    nl ++
    spaces 8 ++ lit "<html>" ++ nl ++
    spaces 12 ++ lit "<head>" ++ nl ++
    spaces 16 ++ lit "<title>" ++ title ++ lit "</title>" ++ nl ++
    spaces 16 ++ lit "<link rel=" ++ dquote ++ lit "stylesheet" ++ dquote ++
      lit " href=" ++ dquote ++ lit "style.css" ++ dquote ++
      lit " type=" ++ dquote ++ lit "text/css" ++ dquote ++ lit "/>" ++ nl ++
    spaces 12 ++ lit "</head>" ++ nl ++
    spaces 12 ++ lit "<body>" ++ nl ++
    spaces 16 ++ lit "<h1>" ++ title ++ lit "</h1>" ++ nl ++
    spaces 16 ++ _convert_text_to_html content ++ nl ++
    spaces 12 ++ lit "</body>" ++ nl ++
    spaces 8 ++ lit "</html>" ++ nl ++
    spaces 8 in
  html_content.

(** [html.escape]: what an escaping assembler would apply, for
    comparison. *)
Definition html_escape (s : str) : str :=
  flat_map (fun c =>
              if (c =? 38)%N then lit "&amp;"
              else if (c =? 60)%N then lit "&lt;"
              else if (c =? 62)%N then lit "&gt;"
              else [c]) s.

(* ===================================================================== *)
(** * Notions used in the statements *)
(* ===================================================================== *)

(** The line the fetcher prints after a failed attempt (line 77). *)
Definition attempt_message (k : nat) (e : RequestException) : Effect :=
  Printed (lit "Attempt " ++ str_of_int (Z.of_nat k + 1) ++ lit " failed: "
         ++ request_exception_str e).

(** The test the two passes of [_clean_content] apply to a trimmed line. *)
Definition kept_line (line : str) : bool :=
  truthy line && negb (has_ad_keyword line).

(** The lines [_clean_content] keeps, in one pass. *)
Definition kept_lines (content : str) : list str :=
  List.filter kept_line (List.map strip (split 10%N content)).

(* ===================================================================== *)
(** * Concrete inputs *)
(* ===================================================================== *)

(** A host that refuses every connection. *)
Definition refusing : Network :=
  fun k => Fails (ConnectionError (lit "refused " ++ str_of_int (Z.of_nat k))).

(** Two catalogs of ten chapters of a serial still running, alike but
    for the title of the last chapter. *)
Definition catalog_a : NovelData.t :=
  NovelData.mk (lit "測試小說") (lit "測試作者") (lit "連載中")
    (Some (lit "第1章")) (Some (lit "第10章 甲")) 10 [] None.

Definition catalog_b : NovelData.t :=
  NovelData.mk (lit "測試小說") (lit "測試作者") (lit "連載中")
    (Some (lit "第1章")) (Some (lit "第10章 乙")) 10 [] None.

(** The same work once it is complete. *)
Definition catalog_done : NovelData.t :=
  NovelData.mk (lit "測試小說") (lit "測試作者") (lit "已完結")
    (Some (lit "第1章")) (Some (lit "第10章 甲")) 10 [] None.

(** The dictionary of the [except] branch of [get_chapter_content]. *)
Definition failed_content (e : Exception) : ChapterContent.t :=
  ChapterContent.mk [] [] (Some (lit "取章節內容失敗: " ++ exception_str e)).

(** A line with something besides white space. *)
Definition nonblank (p : str) : bool := truthy (strip p).

Definition paragraph (p : str) : str := lit "<p>" ++ p ++ lit "</p>".

(** The call built a [ThreadPoolExecutor]. *)
Definition engages_pool {A} (m : M A) : Prop :=
  exists w, In (ExecutorCreated w) (fst m).

(** The call handed a unit of work to the executor. *)
Definition submits_work {A} (m : M A) : Prop :=
  exists i, In (Submitted i) (fst m).

Definition weight (b : bool) : nat := if b then 1%nat else 0%nat.

(** Progress made by the pool: submissions, units started, units
    finished, results taken. *)
Definition progress (p : Pool.t) : nat :=
  (length (Pool.futures p)
   + count (fun f => negb (is_pending f)) (Pool.futures p)
   + count is_finished (Pool.futures p)
   + Pool.collected p)%nat.

Section PoolInvariant.

Context `{PageParser}.
Variable nets : nat -> Network.
Variable chapters : list ChapterInfo.t.

(** What holds of the pool at every moment of an execution. *)
Record invariant (p : Pool.t) : Prop := {
  inv_submitted : (length (Pool.futures p) <= length chapters)%nat;
  inv_collected : (Pool.collected p <= length (Pool.futures p))%nat;
  inv_raised : Pool.raised p = None;
  inv_taken : forall i, (i < Pool.collected p)%nat ->
      exists o, Pool.futures p !! i = Some (Finished o);
  inv_outcome : forall i o, Pool.futures p !! i = Some (Finished o) ->
      o = Return (unit_result nets chapters i);
  inv_results :
    Pool.results p
    = List.map snd (successes nets chapters (Pool.collected p));
}.

End PoolInvariant.

(** A parser for pages written for the purpose: a page that starts with
    an exclamation mark has none of the elements asked for, any other
    page is itself the text of each of them. *)
Definition toy_parser : PageParser := {|
  select_one html selector :=
    if startswith (lit "!") html then None else Some html;
  select html selector := [];
|}.

Definition page (url body : str) : Response.t :=
  Response.mk 200 (lit "OK") url body.

Definition shelf : list ChapterInfo.t :=
  [ ChapterInfo.mk (lit "第1章") (lit "https://czbooks.net/n/x/1");
    ChapterInfo.mk (lit "第2章") (lit "https://czbooks.net/n/x/2");
    ChapterInfo.mk (lit "第3章") (lit "https://czbooks.net/n/x/3");
    ChapterInfo.mk (lit "第4章") (lit "https://czbooks.net/n/x/4") ].

(** The first and third chapters arrive, the host refuses the second, and
    the page of the fourth lacks the elements. *)
Definition shelf_nets : nat -> Network :=
  fun i k =>
    match i with
    | 0%nat => Answers (page (lit "https://czbooks.net/n/x/1") (lit "one"))
    | 1%nat => refusing k
    | 2%nat => Answers (page (lit "https://czbooks.net/n/x/3") (lit "three"))
    | _ => Answers (page (lit "https://czbooks.net/n/x/4") (lit "!"))
    end.

(** Two workers; the units finish as 2, 3, 1, 4. *)
Definition out_of_order : list Event :=
  [ Submit; Submit; Submit; Submit; Start; Start; Finish 1; Start; Finish 2;
    Finish 0; Start; Collect; Collect; Finish 3; Collect; Collect ].

(** A host that is down for every unit. *)
Definition dead_nets : nat -> Network := fun _ => refusing.

Example lit_ascii : lit "czbooks.net" = [99; 122; 98; 111; 111; 107; 115; 46; 110; 101; 116]%N.
Proof. reflexivity. Qed.

Example lit_cjk : lit "本章完" = [26412; 31456; 23436]%N.
Proof. reflexivity. Qed.

Example lit_fullwidth : lit "＊＊＊" = [65290; 65290; 65290]%N.
Proof. reflexivity. Qed.

Example str_of_int_10 : str_of_int 10 = lit "10".
Proof. reflexivity. Qed.

Example str_of_int_0 : str_of_int 0 = lit "0".
Proof. reflexivity. Qed.

Example str_of_int_neg : str_of_int (-7) = lit "-7".
Proof. reflexivity. Qed.

Example split_trailing : split 10%N (lit "a" ++ nl ++ lit "b" ++ nl) = [lit "a"; lit "b"; []].
Proof. reflexivity. Qed.

Example strip_cjk_space : strip ([12288; 12288] ++ lit "a b" ++ [32; 13])%N = lit "a b".
Proof. reflexivity. Qed.

Example replace_all : replace (lit "ab") (lit "X") (lit "ababcab") = lit "XXcX".
Proof. reflexivity. Qed.

Example replace_overlap : replace (lit "aa") (lit "b") (lit "aaa") = lit "ba".
Proof. reflexivity. Qed.

(* ===================================================================== *)
(** * Facts about the string primitives *)
(* ===================================================================== *)

Section StringFacts.

Implicit Types (s t p k : str) (c : char).

Lemma char_eqb_eq c1 c2 : char_eqb c1 c2 = true <-> c1 = c2.
Proof. apply N.eqb_eq. Qed.

Lemma char_eqb_refl c : char_eqb c c = true.
Proof. apply N.eqb_refl. Qed.

Lemma str_eqb_eq s t : str_eqb s t = true <-> s = t.
Proof.
  revert t; induction s as [|x s IH]; intros [|y t]; simpl; split;
    try congruence; try reflexivity.
  - intros [Hx Hs]%andb_true_iff. apply char_eqb_eq in Hx. apply IH in Hs.
    congruence.
  - intros [= -> ->]. rewrite char_eqb_refl. simpl. now apply IH.
Qed.

(** [startswith] is the prefix relation. *)
Lemma startswith_spec p s :
  startswith p s = true <-> exists t, s = p ++ t.
Proof.
  revert s; induction p as [|x p IH]; intros s; simpl.
  - split; [intros _; now exists s | reflexivity].
  - destruct s as [|y s].
    + split; [discriminate | intros [t Ht]; discriminate].
    + rewrite andb_true_iff, char_eqb_eq, IH. split.
      * intros [-> [t ->]]. now exists t.
      * intros [t [= -> ->]]. split; [reflexivity | now exists t].
Qed.

(** [contains] decides [substring_of]: this is Python's [k in s]. *)
Lemma contains_spec k s : contains k s = true <-> substring_of k s.
Proof.
  induction s as [|x s IH].
  - simpl. rewrite orb_false_r, startswith_spec. split.
    + intros [t Ht]. now exists [], t.
    + intros [pre [post H]]. destruct pre as [|? ?]; [|discriminate].
      now exists post.
  - change (contains k (x :: s))
      with (startswith k (x :: s) || contains k s).
    rewrite orb_true_iff, startswith_spec, IH. split.
    + intros [[t Ht] | [pre [post ->]]].
      * now exists [], t.
      * now exists (x :: pre), post.
    + intros [[|y pre] [post H]].
      * left. now exists post.
      * right. injection H as -> ->. now exists pre, post.
Qed.

Lemma split_nonempty c s : split c s <> [].
Proof.
  destruct s as [|x s]; simpl; [discriminate|].
  destruct (char_eqb x c); [discriminate|].
  destruct (split c s); discriminate.
Qed.

Lemma join_cons sep p (rest : list str) :
  rest <> [] -> join sep (p :: rest) = p ++ sep ++ join sep rest.
Proof. destruct rest; [congruence | reflexivity]. Qed.

(** Splitting on a character and joining on it again is the identity. *)
Lemma join_split c s : join [c] (split c s) = s.
Proof.
  induction s as [|x s IH]; [reflexivity|].
  simpl. destruct (char_eqb x c) eqn:E.
  - apply char_eqb_eq in E; subst x.
    rewrite join_cons by apply split_nonempty. simpl. now rewrite IH.
  - pose proof (split_nonempty c s) as Hne.
    destruct (split c s) as [|f fs]; [congruence|].
    destruct fs as [|g fs]; simpl in *; now rewrite <- IH.
Qed.

(** No field of a split holds the separator. *)
Lemma split_fields_free c s : List.Forall (fun f => ~ In c f) (split c s).
Proof.
  induction s as [|x s IH]; simpl.
  - constructor; [intros [] | constructor].
  - destruct (char_eqb x c) eqn:E.
    + constructor; [intros [] | exact IH].
    + pose proof (split_nonempty c s) as Hne.
      destruct (split c s) as [|f fs]; [congruence|].
      inversion IH as [|? ? Hf Hfs]; subst. constructor; [|exact Hfs].
      intros [-> | Hin]; [|now apply Hf].
      rewrite char_eqb_refl in E. discriminate.
Qed.

Lemma split_free c s : ~ In c s -> split c s = [s].
Proof.
  induction s as [|x s IH]; intros Hn; [reflexivity|]. simpl.
  destruct (char_eqb x c) eqn:E.
  - apply char_eqb_eq in E. subst. exfalso. apply Hn. now left.
  - rewrite IH; [reflexivity|]. intros Hin. apply Hn. now right.
Qed.

Lemma split_app_sep c p t :
  ~ In c p -> split c (p ++ c :: t) = p :: split c t.
Proof.
  induction p as [|x p IH]; intros Hn; simpl.
  - now rewrite char_eqb_refl.
  - destruct (char_eqb x c) eqn:E.
    + apply char_eqb_eq in E. subst. exfalso. apply Hn. now left.
    + rewrite IH; [reflexivity|]. intros Hin. apply Hn. now right.
Qed.

(** Joining separator-free fields and splitting again gives the fields
    back, provided there is at least one field. *)
Lemma split_join c (parts : list str) :
  parts <> [] -> List.Forall (fun f => ~ In c f) parts ->
  split c (join [c] parts) = parts.
Proof.
  induction parts as [|p rest IH]; intros Hne Hall; [congruence|].
  inversion Hall as [|? ? Hp Hrest]; subst.
  destruct rest as [|q rest].
  - simpl. now apply split_free.
  - rewrite join_cons by discriminate. simpl app.
    rewrite split_app_sep by assumption.
    f_equal. apply IH; [discriminate | assumption].
Qed.

(** ** Stripping *)

Lemma lstrip_decompose s :
  exists a, s = a ++ lstrip s /\ List.Forall (fun c => isspace c = true) a.
Proof.
  induction s as [|c s [a [Ha Hall]]]; simpl.
  - exists []. split; [reflexivity | constructor].
  - destruct (isspace c) eqn:E.
    + exists (c :: a). split; [simpl; congruence | now constructor].
    + exists []. split; [reflexivity | constructor].
Qed.

Lemma lstrip_no_leading s : no_leading_space (lstrip s).
Proof.
  induction s as [|c s IH]; simpl; [exact I|].
  destruct (isspace c) eqn:E; [exact IH | exact E].
Qed.

Lemma lstrip_fixed s : no_leading_space s -> lstrip s = s.
Proof. destruct s as [|c s]; simpl; [reflexivity | now intros ->]. Qed.

Lemma lstrip_keeps_last w c :
  isspace c = false -> exists u, lstrip (w ++ [c]) = u ++ [c].
Proof.
  intros Hc. induction w as [|x w [u Hu]]; simpl.
  - rewrite Hc. now exists [].
  - destruct (isspace x); [now exists u | now exists (x :: w)].
Qed.

Lemma rstrip_no_leading s : no_leading_space s -> no_leading_space (rstrip s).
Proof.
  unfold rstrip. destruct s as [|c s]; simpl; [intros _; exact I|].
  intros Hc. destruct (lstrip_keeps_last (rev s) c Hc) as [u ->].
  rewrite rev_app_distr. simpl. exact Hc.
Qed.

Lemma strip_trimmed s : trimmed (strip s).
Proof.
  split.
  - apply rstrip_no_leading, lstrip_no_leading.
  - unfold strip, rstrip. rewrite rev_involutive. apply lstrip_no_leading.
Qed.

Lemma strip_fixed s : trimmed s -> strip s = s.
Proof.
  intros [Hl Hr]. unfold strip, rstrip.
  rewrite (lstrip_fixed s Hl), (lstrip_fixed (rev s) Hr).
  apply rev_involutive.
Qed.

Lemma strip_idempotent s : strip (strip s) = strip s.
Proof. apply strip_fixed, strip_trimmed. Qed.

(** [strip] removes a run of white space at each end and nothing else. *)
Lemma strip_decompose s :
  exists a b, s = a ++ strip s ++ b /\
    List.Forall (fun c => isspace c = true) a /\
    List.Forall (fun c => isspace c = true) b.
Proof.
  destruct (lstrip_decompose s) as [a [Ha Hall]].
  destruct (lstrip_decompose (rev (lstrip s))) as [b [Hb Hbll]].
  exists a, (rev b). repeat split; [|assumption|now apply List.Forall_rev].
  unfold strip, rstrip. rewrite <- rev_app_distr, <- Hb, rev_involutive.
  exact Ha.
Qed.

(** Stripping never introduces a character. *)
Lemma strip_incl s c : In c (strip s) -> In c s.
Proof.
  destruct (strip_decompose s) as [a [b [H _]]]. intros Hin.
  rewrite H. apply in_or_app. right. apply in_or_app. now left.
Qed.

End StringFacts.

(* ===================================================================== *)
(** * The fetcher *)
(* ===================================================================== *)

Section FetcherFacts.

Variable net : Network.
Variable url : str.

Lemma attempt_once_fails k e :
  attempt_error net k = Some e ->
  attempt_once net url k = ([SleepPoliteness; Get url], Raise (RequestFailed e)).
Proof.
  unfold attempt_error, attempt_once. destruct (net k) as [e'|r]; simpl.
  - now intros [= ->].
  - now intros ->.
Qed.

Lemma attempt_once_answers k :
  attempt_error net k = None ->
  exists r, net k = Answers r /\
            attempt_once net url k = ([SleepPoliteness; Get url], Return r).
Proof.
  unfold attempt_error, attempt_once. destruct (net k) as [e'|r]; simpl.
  - discriminate.
  - intros ->. now exists r.
Qed.

(** One turn of the loop, when the attempt fails. *)
Lemma retry_loop_failed cap k rest e :
  attempt_error net k = Some e ->
  retry_loop net url cap (k :: rest) =
    if Z.of_nat k =? cap - 1
    then ([SleepPoliteness; Get url; attempt_message k e],
          Raise (RequestFailed e))
    else ([SleepPoliteness; Get url; attempt_message k e; SleepRetry]
            ++ fst (retry_loop net url cap rest),
          snd (retry_loop net url cap rest)).
Proof.
  intros He. simpl. rewrite (attempt_once_fails k e He). simpl.
  destruct (Z.of_nat k =? cap - 1); [reflexivity|].
  simpl. now destruct (retry_loop net url cap rest).
Qed.

(** One turn of the loop, when the attempt succeeds. *)
Lemma retry_loop_answered cap k rest :
  attempt_error net k = None ->
  exists r, net k = Answers r /\
    retry_loop net url cap (k :: rest) = ([SleepPoliteness; Get url], Return r).
Proof.
  intros Hk. destruct (attempt_once_answers k Hk) as [r [Hr Ho]].
  exists r. split; [assumption|]. simpl. now rewrite Ho.
Qed.

(** Never more physical requests than turns of the loop. *)
Lemma retry_loop_attempts_le cap attempts :
  (attempts_made (retry_loop net url cap attempts) <= length attempts)%nat.
Proof.
  induction attempts as [|k rest IH]; [unfold attempts_made; simpl; lia|].
  destruct (attempt_error net k) as [e|] eqn:Hk.
  - rewrite (retry_loop_failed cap k rest e Hk).
    destruct (Z.of_nat k =? cap - 1); unfold attempts_made in *; simpl in *; lia.
  - destruct (retry_loop_answered cap k rest Hk) as [r [_ ->]].
    unfold attempts_made; simpl; lia.
Qed.

(** When every remaining attempt fails and the last of them is attempt
    [cap - 1], the loop makes them all and raises what the last one
    raised. *)
Lemma retry_loop_exhausted cap start len :
  Z.of_nat (start + len) = cap ->
  (forall k, (start <= k < start + S len)%nat -> attempt_error net k <> None) ->
  exists e, attempt_error net (start + len) = Some e /\
    snd (retry_loop net url (cap + 1) (seq start (S len))) = Raise (RequestFailed e) /\
    attempts_made (retry_loop net url (cap + 1) (seq start (S len))) = S len.
Proof.
  revert start. induction len as [|len IH]; intros start Hcap Hall.
  - destruct (attempt_error net start) as [e|] eqn:Hk;
      [|exfalso; apply (Hall start); [lia | assumption]].
    exists e. replace (start + 0)%nat with start by lia.
    split; [assumption|].
    change (seq start 1) with [start].
    rewrite (retry_loop_failed _ start [] e Hk).
    replace (Z.of_nat start =? cap + 1 - 1) with true
      by (symmetry; apply Z.eqb_eq; lia).
    split; reflexivity.
  - destruct (attempt_error net start) as [e|] eqn:Hk;
      [|exfalso; apply (Hall start); [lia | assumption]].
    destruct (IH (S start)) as [e' [He' [Hres Hcount]]]; [lia| |].
    { intros k Hk'. apply Hall. lia. }
    exists e'. replace (start + S len)%nat with (S start + len)%nat by lia.
    split; [assumption|].
    change (seq start (S (S len))) with (start :: seq (S start) (S len)).
    rewrite (retry_loop_failed _ start _ e Hk).
    replace (Z.of_nat start =? cap + 1 - 1) with false
      by (symmetry; apply Z.eqb_neq; lia).
    split; [exact Hres|].
    unfold attempts_made in *. simpl in *. now rewrite Hcount.
Qed.

End FetcherFacts.

(** C4.  [_request_with_retry] makes at most [max_retries] physical
    requests; when [max_retries] is at least 1 and every attempt fails, it
    makes them all and raises the error of the last attempt, not the
    generic one; when [max_retries] is 0 it makes no request and raises
    the generic [RequestException("All retry attempts failed")]. *)
Theorem request_with_retry_exhaustion (net : Network) (url : str) (max_retries : Z) :
  let call := _request_with_retry net url max_retries in
  Z.of_nat (attempts_made call) <= Z.max 0 max_retries /\
  (1 <= max_retries ->
   (forall k, (k < Z.to_nat max_retries)%nat -> attempt_error net k <> None) ->
   exists e,
     attempt_error net (Z.to_nat max_retries - 1) = Some e /\
     snd call = Raise (RequestFailed e) /\
     Z.of_nat (attempts_made call) = max_retries) /\
  (max_retries = 0 ->
   call = ([], Raise (RequestFailed
                        (BaseRequestException (lit "All retry attempts failed"))))).
Proof.
  intros call. subst call. unfold _request_with_retry, range.
  split; [|split].
  - pose proof (retry_loop_attempts_le net url max_retries
                  (seq 0 (Z.to_nat max_retries))) as Hle.
    rewrite length_seq in Hle. lia.
  - intros Hcap Hall.
    destruct (Z.to_nat max_retries) as [|len] eqn:Hlen; [lia|].
    destruct (retry_loop_exhausted net url (max_retries - 1) 0 len)
      as [e [He [Hres Hcount]]]; [lia| |].
    { intros k Hk. apply Hall. lia. }
    replace (max_retries - 1 + 1) with max_retries in * by lia.
    exists e. replace (S len - 1)%nat with (0 + len)%nat by lia.
    repeat split; [assumption | assumption | lia].
  - intros ->. reflexivity.
Qed.

Lemma request_with_retry_exhaustion_witness :
  exists e,
    attempt_error refusing 2 = Some e /\
    snd (_request_with_retry refusing (lit "https://czbooks.net/n/x") 3)
      = Raise (RequestFailed e) /\
    Z.of_nat (attempts_made
                (_request_with_retry refusing (lit "https://czbooks.net/n/x") 3)) = 3.
Proof.
  apply (request_with_retry_exhaustion refusing (lit "https://czbooks.net/n/x") 3).
  - lia.
  - intros k _. discriminate.
Defined.

(* ===================================================================== *)
(** * The normaliser *)
(* ===================================================================== *)

Section NormaliserFacts.

Lemma kept_line_spec line :
  kept_line line = true <-> survives ad_keywords line.
Proof.
  unfold kept_line, survives, has_ad_keyword.
  rewrite andb_true_iff, negb_true_iff. split.
  - intros [Ht Hk]. split; [now destruct line|].
    intros k Hin Hsub. apply contains_spec in Hsub.
    assert (Hex : existsb (fun keyword => contains keyword line) ad_keywords = true)
      by (apply existsb_exists; now exists k).
    congruence.
  - intros [Hne Hk]. split; [now destruct line|].
    destruct (existsb _ ad_keywords) eqn:E; [|reflexivity].
    apply existsb_exists in E as [k [Hin Hc]].
    exfalso. apply (Hk k Hin). now apply contains_spec.
Qed.

(** A loop that appends the elements passing a test is a filter. *)
Lemma append_loop_filter {A} (test : A -> bool) (l acc : list A) :
  fold_left (fun acc x => if test x then acc ++ [x] else acc) l acc
  = acc ++ List.filter test l.
Proof.
  revert acc. induction l as [|x l IH]; intros acc; simpl.
  - now rewrite app_nil_r.
  - rewrite IH. destruct (test x); [|reflexivity].
    now rewrite <- app_assoc.
Qed.

Lemma filter_filter {A} (f g : A -> bool) (l : list A) :
  List.filter g (List.filter f l) = List.filter (fun x => f x && g x) l.
Proof.
  induction l as [|x l IH]; [reflexivity|]. simpl.
  destruct (f x); simpl; [destruct (g x)|]; now rewrite IH.
Qed.

Lemma clean_content_kept content :
  _clean_content content = join nl (kept_lines content).
Proof.
  unfold _clean_content, kept_lines.
  rewrite (append_loop_filter (fun line => negb (has_ad_keyword line))).
  simpl app. now rewrite filter_filter.
Qed.

Lemma split_lines_of content : lines_of content (split 10%N content).
Proof.
  repeat split.
  - apply split_nonempty.
  - apply split_fields_free.
  - apply join_split.
Qed.

(** The decomposition into lines is unique. *)
Lemma lines_of_unique content lines :
  lines_of content lines -> lines = split 10%N content.
Proof.
  intros [Hne [Hfree <-]]. symmetry. now apply split_join.
Qed.

Lemma kept_lines_good content :
  List.Forall (fun l => kept_line l = true /\ trimmed l /\ ~ In 10%N l)
              (kept_lines content).
Proof.
  apply List.Forall_forall. intros l Hin.
  apply filter_In in Hin as [Hin Hk].
  apply in_map_iff in Hin as [f [<- Hf]].
  repeat split; [assumption | apply strip_trimmed | apply strip_trimmed |].
  intros Hnl. apply strip_incl in Hnl.
  pose proof (split_fields_free 10%N content) as Hfree.
  rewrite List.Forall_forall in Hfree. now apply (Hfree f).
Qed.

Lemma filter_all {A} (f : A -> bool) (l : list A) :
  List.Forall (fun x => f x = true) l -> List.filter f l = l.
Proof.
  induction 1 as [|x l Hx _ IH]; [reflexivity|].
  simpl. now rewrite Hx, IH.
Qed.

Lemma map_fixed {A} (f : A -> A) (l : list A) :
  List.Forall (fun x => f x = x) l -> List.map f l = l.
Proof.
  induction 1 as [|x l Hx _ IH]; [reflexivity|].
  simpl. now rewrite Hx, IH.
Qed.

Lemma kept_lines_fixed content :
  kept_lines content <> [] ->
  kept_lines (join nl (kept_lines content)) = kept_lines content.
Proof.
  intros Hne. pose proof (kept_lines_good content) as Hgood.
  unfold kept_lines at 1.
  change nl with [10%N]. rewrite split_join; [|assumption|].
  - rewrite map_fixed, filter_all; [reflexivity| |].
    + eapply List.Forall_impl; [|exact Hgood]. now intros l [Hk _].
    + eapply List.Forall_impl; [|exact Hgood].
      intros l [_ [Ht _]]. now apply strip_fixed.
  - eapply List.Forall_impl; [|exact Hgood]. now intros l [_ [_ Hn]].
Qed.

End NormaliserFacts.

(** C5.  [_clean_content] is a total function of its input: the input
    has exactly one decomposition into lines; each line is trimmed; the
    empty lines and the lines holding one of the boilerplate markers are
    discarded; the lines left are joined by single newlines, in order;
    when none is left the result is the empty string. *)
Theorem clean_content_spec (content : str) :
  exists lines kept : list str,
    lines_of content lines /\
    (forall lines', lines_of content lines' -> lines' = lines) /\
    kept = List.filter kept_line (List.map strip lines) /\
    (forall l, kept_line l = true <-> survives ad_keywords l) /\
    (forall l, trimmed (strip l) /\
               exists a b, l = a ++ strip l ++ b /\ all_space a /\ all_space b) /\
    _clean_content content = join nl kept /\
    (kept = [] -> _clean_content content = []).
Proof.
  exists (split 10%N content), (kept_lines content).
  split; [apply split_lines_of|].
  split; [apply lines_of_unique|].
  split; [reflexivity|].
  split; [apply kept_line_spec|].
  split; [intros l; split; [apply strip_trimmed | apply strip_decompose]|].
  split; [apply clean_content_kept|].
  intros Hnil. now rewrite clean_content_kept, Hnil.
Qed.

(** C6.  The normaliser is idempotent. *)
Theorem clean_content_idempotent (x : str) :
  _clean_content (_clean_content x) = _clean_content x.
Proof.
  rewrite !clean_content_kept.
  destruct (kept_lines x) as [|l ls] eqn:Hk; [reflexivity|].
  rewrite <- Hk. rewrite kept_lines_fixed; [reflexivity|].
  rewrite Hk. discriminate.
Qed.

(* ===================================================================== *)
(** * The file name *)
(* ===================================================================== *)

Example filename_running :
  filename_of catalog_a 0 10 = lit "測試小說_第1章到第10章_最新第10章 甲.epub".
Proof. reflexivity. Qed.

Example filename_complete :
  filename_of catalog_done 0 10 = lit "測試小說_全本.epub".
Proof. reflexivity. Qed.

Example filename_partial :
  filename_of catalog_a 2 7 = lit "測試小說_第3章到第7章.epub".
Proof. reflexivity. Qed.

Example select_all_then_name :
  select_range catalog_a (DownloadRange 3 7) = Some (2, 7) /\
  select_range catalog_a (DownloadLatest 10) = Some (0, 10) /\
  select_range catalog_a (DownloadRange 0 7) = None /\
  select_range catalog_a (DownloadLatest 11) = None.
Proof. repeat split. Qed.

(** C1, as stated, fails: two catalogs that agree on title, status and
    total count, with the same whole-catalog range, get different file
    names when the titles of their last chapters differ. *)
Lemma filename_not_function_of_five :
  NovelData.title catalog_a = NovelData.title catalog_b /\
  NovelData.status catalog_a = NovelData.status catalog_b /\
  NovelData.total_chapters catalog_a = NovelData.total_chapters catalog_b /\
  filename_of catalog_a 0 10 <> filename_of catalog_b 0 10.
Proof. repeat split. discriminate. Qed.

(** C1, amended.  The file name is a function of title, status, start
    index, end index, total count and last chapter title: catalogs that
    agree on these get the same name for the same range, whatever their
    other fields; and the last chapter title matters only for a
    whole-catalog range of a work that is not complete. *)
Theorem filename_deterministic (info1 info2 : NovelData.t) (start_idx end_idx : Z) :
  NovelData.title info1 = NovelData.title info2 ->
  NovelData.status info1 = NovelData.status info2 ->
  NovelData.total_chapters info1 = NovelData.total_chapters info2 ->
  (NovelData.last_chapter info1 = NovelData.last_chapter info2 \/
   start_idx <> 0 \/
   end_idx <> NovelData.total_chapters info1 \/
   NovelData.status info1 = lit "已完結") ->
  filename_of info1 start_idx end_idx = filename_of info2 start_idx end_idx.
Proof.
  intros Ht Hs Hn Hl. unfold filename_of. rewrite <- Ht, <- Hs, <- Hn.
  destruct (start_idx =? 0) eqn:E0; simpl; [|reflexivity].
  destruct (end_idx =? NovelData.total_chapters info1) eqn:E1; simpl;
    [|reflexivity].
  destruct (str_eqb (NovelData.status info1) (lit "已完結")) eqn:Ec; simpl;
    [reflexivity|].
  destruct Hl as [Hl | [Hl | [Hl | Hl]]].
  - now rewrite Hl.
  - apply Z.eqb_eq in E0. contradiction.
  - apply Z.eqb_eq in E1. contradiction.
  - apply str_eqb_eq in Hl. congruence.
Qed.

Lemma filename_deterministic_witness :
  filename_of catalog_a 2 7 = filename_of catalog_b 2 7.
Proof.
  apply (filename_deterministic catalog_a catalog_b 2 7);
    [reflexivity | reflexivity | reflexivity | right; left; lia].
Defined.

(** C7.  The three shapes of the file name, for a catalog with title
    [t], status [s], last chapter title [L] and total count [N]: the
    whole catalog of a work that is not complete, the whole catalog of a
    complete work, and a partial range from chapter [b] to chapter [e],
    counted from 1, both included. *)
Theorem filename_shapes (t a s L : str) (fc : option str) (N : Z)
    (chs : list ChapterInfo.t) (err : option str) :
  let info := NovelData.mk t a s fc (Some L) N chs err in
  (s <> lit "已完結" ->
   filename_of info 0 N =
     t ++ lit "_第1章到第" ++ str_of_int N ++ lit "章_最新" ++ L ++ lit ".epub") /\
  (s = lit "已完結" ->
   filename_of info 0 N = t ++ lit "_全本.epub") /\
  (forall b e : Z,
     ~ (b = 1 /\ e = N) ->
     filename_of info (b - 1) e =
       t ++ lit "_第" ++ str_of_int b ++ lit "章到第" ++ str_of_int e
         ++ lit "章.epub").
Proof.
  intros info. subst info. unfold filename_of. simpl NovelData.total_chapters.
  simpl NovelData.status. simpl NovelData.title. simpl NovelData.last_chapter.
  repeat split.
  - intros Hs. rewrite !Z.eqb_refl. simpl andb.
    destruct (str_eqb s (lit "已完結")) eqn:E.
    + apply str_eqb_eq in E. contradiction.
    + reflexivity.
  - intros ->. rewrite !Z.eqb_refl. simpl andb.
    replace (str_eqb (lit "已完結") (lit "已完結")) with true by reflexivity.
    reflexivity.
  - intros b e Hbe.
    replace ((b - 1 =? 0) && (e =? N)) with false.
    + replace (b - 1 + 1) with b by lia. reflexivity.
    + symmetry. apply andb_false_iff.
      destruct (Z.eq_dec b 1) as [->|Hb].
      * right. apply Z.eqb_neq. intros ->. now apply Hbe.
      * left. apply Z.eqb_neq. lia.
Qed.

Lemma filename_shapes_witness :
  filename_of catalog_a 0 10 =
    lit "測試小說" ++ lit "_第1章到第" ++ str_of_int 10 ++ lit "章_最新"
      ++ lit "第10章 甲" ++ lit ".epub" /\
  filename_of catalog_done 0 10 = lit "測試小說" ++ lit "_全本.epub" /\
  filename_of catalog_a (3 - 1) 7 =
    lit "測試小說" ++ lit "_第" ++ str_of_int 3 ++ lit "章到第" ++ str_of_int 7
      ++ lit "章.epub".
Proof.
  split; [|split].
  - apply (filename_shapes (lit "測試小說") (lit "測試作者") (lit "連載中")
             (lit "第10章 甲") (Some (lit "第1章")) 10 [] None).
    discriminate.
  - apply (filename_shapes (lit "測試小說") (lit "測試作者") (lit "已完結")
             (lit "第10章 甲") (Some (lit "第1章")) 10 [] None).
    reflexivity.
  - apply (filename_shapes (lit "測試小說") (lit "測試作者") (lit "連載中")
             (lit "第10章 甲") (Some (lit "第1章")) 10 [] None).
    lia.
Defined.

(* ===================================================================== *)
(** * The readers *)
(* ===================================================================== *)

Section ReaderFacts.

Context `{PageParser}.

(** A loop that appends the image of each element is a map. *)
Lemma append_loop_map {A B} (f : A -> B) (l : list A) (acc : list B) :
  fold_left (fun acc x => acc ++ [f x]) l acc = acc ++ List.map f l.
Proof.
  revert acc. induction l as [|x l IH]; intros acc; simpl.
  - now rewrite app_nil_r.
  - rewrite IH. now rewrite <- app_assoc.
Qed.

(** What the [try] of [get_info] returns, when it returns: a populated
    catalog with no ['error'] key. *)
Lemma get_info_body_returns net self_url log info :
  get_info_body net self_url = (log, Return info) ->
  NovelData.error info = None /\
  NovelData.chapters info <> [] /\
  NovelData.total_chapters info = Z.of_nat (length (NovelData.chapters info)) /\
  (exists first_title, NovelData.first_chapter info = Some first_title) /\
  (exists last_title, NovelData.last_chapter info = Some last_title).
Proof.
  unfold get_info_body.
  destruct (_request_with_retry net self_url 3) as [log0 [response|e]];
    simpl; [|discriminate].
  destruct (select_one _ (lit ".novel-detail .info .title")); [|discriminate].
  destruct (select_one _ (lit ".novel-detail .info .author a")); [|discriminate].
  destruct (fold_left _ _ _) as [|first rest] eqn:Hlist; [discriminate|].
  simpl. intros [= _ <-]. simpl.
  repeat split; [discriminate | eauto | eauto].
Qed.

End ReaderFacts.

(** C9.  [get_info] never raises: for every network and every page it
    returns a dictionary.  When the dictionary has an ['error'] every
    other field is empty or zero; when it has none, the catalog is
    populated. *)
Theorem get_info_result_shaped `{PageParser} (net : Network) (self_url : str) :
  exists log info,
    get_info net self_url = (log, Return info) /\
    (NovelData.error info <> None ->
       NovelData.title info = [] /\
       NovelData.author info = [] /\
       NovelData.status info = [] /\
       NovelData.first_chapter info = None /\
       NovelData.last_chapter info = None /\
       NovelData.total_chapters info = 0 /\
       NovelData.chapters info = []) /\
    (NovelData.error info = None ->
       NovelData.chapters info <> [] /\
       NovelData.total_chapters info
         = Z.of_nat (length (NovelData.chapters info)) /\
       NovelData.first_chapter info <> None /\
       NovelData.last_chapter info <> None).
Proof.
  unfold get_info.
  destruct (get_info_body net self_url) as [log [info|e]] eqn:Hbody; simpl.
  - exists log, info. split; [reflexivity|].
    destruct (get_info_body_returns _ _ _ _ Hbody)
      as [Herr [Hne [Htot [[ft Hft] [lt Hlt]]]]].
    split; [congruence|]. intros _.
    repeat split; [assumption | assumption | congruence | congruence].
  - eexists _, _. split; [reflexivity|]. simpl.
    split; [now intros _ | discriminate].
Qed.

Example get_info_host_down :
  snd (get_info (H:=toy_parser) refusing (lit "https://czbooks.net/n/x"))
  = Return (NovelData.mk [] [] [] None None 0 []
              (Some (lit "獲取資訊失敗: refused 2"))).
Proof. vm_compute. reflexivity. Qed.

Example get_info_no_title :
  snd (get_info (H:=toy_parser)
         (fun _ => Answers (page (lit "https://czbooks.net/n/x") (lit "!")))
         (lit "https://czbooks.net/n/x"))
  = Return (NovelData.mk [] [] [] None None 0 []
              (Some (lit "獲取資訊失敗: 無法找書名"))).
Proof. vm_compute. reflexivity. Qed.

(* ===================================================================== *)
(** * The EPUB generator *)
(* ===================================================================== *)

Section EpubFacts.

Lemma substring_refl (s : str) : substring_of s s.
Proof. exists [], []. now rewrite app_nil_r. Qed.

Lemma substring_app_l (k s a : str) : substring_of k s -> substring_of k (a ++ s).
Proof.
  intros [pre [post ->]]. exists (a ++ pre), post. now rewrite <- app_assoc.
Qed.

Lemma substring_app_r (k s b : str) : substring_of k s -> substring_of k (s ++ b).
Proof.
  intros [pre [post ->]]. exists pre, (post ++ b). now rewrite <- !app_assoc.
Qed.

Lemma substring_join (sep x : str) (parts : list str) :
  In x parts -> substring_of x (join sep parts).
Proof.
  induction parts as [|p rest IH]; intros Hin; [destruct Hin|].
  destruct rest as [|q rest].
  - destruct Hin as [<- | []]. apply substring_refl.
  - rewrite join_cons by discriminate. destruct Hin as [<- | Hin].
    + apply substring_app_r, substring_refl.
    + apply substring_app_l, substring_app_l, IH, Hin.
Qed.

Lemma substring_prefix1 (a r : str) : substring_of a (a ++ r).
Proof. now exists [], r. Qed.

Lemma substring_prefix3 (a b c r : str) :
  substring_of (a ++ b ++ c) (a ++ b ++ c ++ r).
Proof. exists [], r. now rewrite <- !app_assoc. Qed.

Lemma convert_text_lines (text : str) (lines : list str) :
  lines_of text lines ->
  _convert_text_to_html text
  = join nl (List.map paragraph (List.filter nonblank lines)).
Proof. intros ->%lines_of_unique. reflexivity. Qed.

Lemma paragraph_in_html (text p : str) :
  In p (split 10%N text) -> nonblank p = true ->
  substring_of (paragraph p) (_convert_text_to_html text).
Proof.
  intros Hin Hnb. apply substring_join.
  apply (in_map paragraph). apply filter_In. now split.
Qed.

End EpubFacts.

(** Walk down a concatenation to the place where the key starts. *)
Ltac find_substring :=
  first [ apply substring_prefix3
        | apply substring_prefix1
        | apply substring_app_l; find_substring ].

(** C10.  The generator escapes nothing.  The chapter title stands
    verbatim inside the [<title>] and the [<h1>] of the document; the body
    is cut into lines, the blank ones are dropped, and each of the others
    is wrapped, verbatim and untrimmed, in one [<p>] element of the
    document, whatever characters it holds. *)
Theorem format_chapter_verbatim (title content : str) :
  substring_of (lit "<title>" ++ title ++ lit "</title>")
               (_format_chapter_content title content) /\
  substring_of (lit "<h1>" ++ title ++ lit "</h1>")
               (_format_chapter_content title content) /\
  substring_of (_convert_text_to_html content)
               (_format_chapter_content title content) /\
  (forall lines, lines_of content lines ->
     _convert_text_to_html content
     = join nl (List.map (fun p => lit "<p>" ++ p ++ lit "</p>")
                         (List.filter (fun p => negb (str_eqb (strip p) []))
                                      lines))) /\
  (forall lines p, lines_of content lines -> In p lines -> strip p <> [] ->
     substring_of (lit "<p>" ++ p ++ lit "</p>")
                  (_format_chapter_content title content)).
Proof.
  assert (Hbody : substring_of (_convert_text_to_html content)
                               (_format_chapter_content title content))
    by (unfold _format_chapter_content; find_substring).
  split; [|split; [|split; [exact Hbody|split]]].
  - unfold _format_chapter_content. find_substring.
  - unfold _format_chapter_content. find_substring.
  - intros lines Hl. rewrite (convert_text_lines content lines Hl).
    f_equal. f_equal. apply filter_ext. intros p. unfold nonblank.
    now destruct (strip p).
  - intros lines p Hl Hin Hne.
    destruct Hbody as [pre [post ->]].
    apply substring_app_l, substring_app_r.
    apply paragraph_in_html.
    + now rewrite <- (lines_of_unique content lines Hl).
    + unfold nonblank. now destruct (strip p).
Qed.

Example special_characters_pass :
  _convert_text_to_html (lit "a<b & c" ++ nl ++ lit "   " ++ nl ++ lit " <i>x</i>")
  = lit "<p>a<b & c</p>" ++ nl ++ lit "<p> <i>x</i></p>".
Proof. vm_compute. reflexivity. Qed.

Example title_passes :
  substring_of (lit "<h1><script>&</h1>")
               (_format_chapter_content (lit "<script>&") (lit "x")).
Proof. unfold _format_chapter_content. find_substring. Qed.

(* ===================================================================== *)
(** * The unit of work *)
(* ===================================================================== *)

Section UnitFacts.

Context `{PageParser}.

Lemma get_chapter_content_raised net chapter_url log e :
  get_chapter_content_body net chapter_url = (log, Raise e) ->
  snd (get_chapter_content net chapter_url) = Return (failed_content e).
Proof. unfold get_chapter_content. now intros ->. Qed.

Lemma get_chapter_content_returned net chapter_url log content :
  get_chapter_content_body net chapter_url = (log, Return content) ->
  get_chapter_content net chapter_url = (log, Return content) /\
  ChapterContent.error content = None.
Proof.
  unfold get_chapter_content. intros Hbody. rewrite Hbody.
  split; [reflexivity|]. revert Hbody. unfold get_chapter_content_body.
  destruct (_request_with_retry net chapter_url 3) as [log0 [response|e]];
    simpl; [|discriminate].
  destruct (select_one _ (lit ".name")); [|discriminate].
  destruct (select_one _ (lit ".content")); [|discriminate].
  simpl. now intros [= _ <-].
Qed.




(** [get_chapter_content] never raises. *)
Lemma get_chapter_content_total net chapter_url :
  exists content, snd (get_chapter_content net chapter_url) = Return content.
Proof.
  destruct (get_chapter_content_body net chapter_url) as [log [content|e]] eqn:Hb.
  - exists content. apply get_chapter_content_returned in Hb as [-> _].
    reflexivity.
  - exists (failed_content e). eapply get_chapter_content_raised, Hb.
Qed.

(** The unit never raises; it yields an entry exactly when the body of
    the [try] returned. *)
Lemma download_single_outcome net chapter :
  match snd (get_chapter_content_body net (ChapterInfo.url chapter)) with
  | Return content =>
    snd (download_single net chapter)
    = Return (Some (Entry.mk (ChapterContent.title content)
                             (ChapterContent.content content)))
  | Raise e => snd (download_single net chapter) = Return None
  end.
Proof.
  unfold download_single.
  destruct (get_chapter_content_body net (ChapterInfo.url chapter))
    as [log [content|e]] eqn:Hb; simpl.
  - apply get_chapter_content_returned in Hb as [-> Herr]. simpl.
    now rewrite Herr.
  - unfold get_chapter_content. rewrite Hb. reflexivity.
Qed.

Lemma download_single_total net chapter :
  exists result, snd (download_single net chapter) = Return result.
Proof.
  pose proof (download_single_outcome net chapter) as Ho.
  destruct (snd (get_chapter_content_body net (ChapterInfo.url chapter)));
    eauto.
Qed.

End UnitFacts.

(* ===================================================================== *)
(** * The thread pool *)
(* ===================================================================== *)

Section CountFacts.

Implicit Types (fs : list Future) (f : Future -> bool).

Lemma count_app f fs1 fs2 : count f (fs1 ++ fs2) = (count f fs1 + count f fs2)%nat.
Proof. unfold count. now rewrite List.filter_app, length_app. Qed.


(** Replacing one future moves each count by the difference of the two. *)
Lemma count_insert f fs i old new :
  fs !! i = Some old ->
  (count f (<[i := new]> fs) + weight (f old) = count f fs + weight (f new))%nat.
Proof.
  revert i. induction fs as [|x fs IH]; intros i Hi; [discriminate|].
  destruct i as [|i]; simpl in *.
  - injection Hi as ->. unfold count. simpl.
    destruct (f old), (f new); simpl; lia.
  - specialize (IH i Hi). unfold count in *. simpl.
    destruct (f x); simpl; lia.
Qed.


Lemma first_pending_lookup fs i :
  first_pending fs = Some i -> fs !! i = Some Pending.
Proof.
  revert i. induction fs as [|x fs IH]; intros i; simpl; [discriminate|].
  destruct x; [now intros [= <-]| |];
    (destruct (first_pending fs) as [j|]; simpl; [|discriminate];
     intros [= <-]; now apply IH).
Qed.


End CountFacts.

Section PoolFacts.

Context `{PageParser}.
Variable nets : nat -> Network.
Variable chapters : list ChapterInfo.t.
Variable max_workers : Z.

Local Abbreviation pool_step := (step nets chapters max_workers).
Local Abbreviation pool_run := (run nets chapters max_workers).
Local Abbreviation pool_finished := (finished chapters).
Local Abbreviation result_of := (unit_result nets chapters).
Local Abbreviation batch := (successes nets chapters).

Lemma unit_outcome i chapter :
  chapters !! i = Some chapter ->
  snd (download_single (nets i) chapter) = Return (result_of i).
Proof.
  intros Hc. unfold unit_result. rewrite Hc.
  destruct (download_single_total (nets i) chapter) as [r ->]. reflexivity.
Qed.

Lemma successes_S k :
  batch (S k) =
    batch k ++ match result_of k with
                   | Some entry => [(k, entry)]
                   | None => []
                   end.
Proof.
  unfold successes. rewrite seq_S, flat_map_app. simpl.
  now rewrite app_nil_r.
Qed.

Lemma invariant_init : invariant nets chapters Pool.init.
Proof.
  unfold Pool.init. constructor; simpl; try lia; try reflexivity.
  intros i o Hi. discriminate.
Qed.


(** Every event keeps the invariant and is one unit of progress. *)
Lemma step_invariant ev p p' :
  invariant nets chapters p -> pool_step ev p = Some p' ->
  invariant nets chapters p' /\ progress p' = S (progress p).
Proof.
  intros [Hs Hc Hr Ht Ho Hres]. unfold step. rewrite Hr.
  destruct p as [fs k results raised]. simpl in *. subst raised.
  destruct ev as [| |i|].
  - (* Submit *)
    destruct (length fs <? length chapters)%nat eqn:Hlt; [|discriminate].
    apply Nat.ltb_lt in Hlt. intros [= <-]. split.
    + constructor; simpl; try rewrite length_app; simpl; try lia; try reflexivity.
      * intros i Hi. destruct (Ht i Hi) as [o Hio]. exists o.
        now apply lookup_app_l_Some.
      * intros i o Hi. apply lookup_app_Some in Hi as [Hi | [_ Hi]].
        -- now apply Ho.
        -- destruct (i - length fs)%nat; discriminate.
      * assumption.
    + unfold progress. simpl. rewrite !count_app, length_app. simpl.
      unfold count at 2 4. simpl. lia.
  - (* Start *)
    destruct (first_pending fs) as [i|] eqn:Hfp; [|discriminate].
    destruct (Z.of_nat (count is_running fs) <? max_workers); [|discriminate].
    apply first_pending_lookup in Hfp. intros [= <-]. split.
    + constructor; simpl; try rewrite length_insert; try lia; try reflexivity.
      * intros j Hj. destruct (Ht j Hj) as [o Hjo]. exists o.
        rewrite list_lookup_insert_ne; [assumption|]. intros ->. congruence.
      * intros j o Hj. apply list_lookup_insert_Some in Hj as [[_ [Hj _]] | [_ Hj]].
        -- discriminate.
        -- now apply Ho.
      * assumption.
    + unfold progress. simpl. rewrite length_insert.
      pose proof (count_insert (fun f => negb (is_pending f)) fs i Pending Running Hfp).
      pose proof (count_insert is_finished fs i Pending Running Hfp).
      simpl in *. lia.
  - (* Finish *)
    destruct (fs !! i) as [[| |]|] eqn:Hi; try discriminate.
    destruct (chapters !! i) as [chapter|] eqn:Hch; [|discriminate].
    intros [= <-]. split.
    + constructor; simpl; try rewrite length_insert; try lia; try reflexivity.
      * intros j Hj. destruct (Ht j Hj) as [o Hjo]. exists o.
        rewrite list_lookup_insert_ne; [assumption|]. intros ->. congruence.
      * intros j o Hj. apply list_lookup_insert_Some in Hj as [[<- [Hj _]] | [_ Hj]].
        -- injection Hj as <-. now apply unit_outcome.
        -- now apply Ho.
      * assumption.
    + unfold progress. simpl. rewrite length_insert.
      pose proof (count_insert (fun f => negb (is_pending f)) fs i Running
                    (Finished (snd (download_single (nets i) chapter))) Hi).
      pose proof (count_insert is_finished fs i Running
                    (Finished (snd (download_single (nets i) chapter))) Hi).
      simpl in *. lia.
  - (* Collect *)
    destruct (length fs =? length chapters)%nat eqn:Hall; [|discriminate].
    destruct (fs !! k) as [[| |o]|] eqn:Hk; try discriminate.
    pose proof (Ho k o Hk) as ->.
    pose proof (lookup_lt_Some _ _ _ Hk) as Hlt.
    intros [= <-]. split.
    + constructor; simpl; try lia; try reflexivity.
      * intros j Hj. destruct (Nat.eq_dec j k) as [->|Hne]; [eauto|].
        apply Ht. lia.
      * assumption.
      * rewrite successes_S, map_app, <- Hres.
        destruct (result_of k); simpl; [reflexivity | now rewrite app_nil_r].
    + unfold progress. simpl. lia.
Qed.

Lemma run_invariant schedule p p' :
  invariant nets chapters p -> pool_run schedule p = Some p' ->
  invariant nets chapters p' /\ progress p' = (progress p + length schedule)%nat.
Proof.
  revert p. induction schedule as [|ev rest IH]; intros p Hinv; simpl.
  - intros [= <-]. split; [assumption | lia].
  - destruct (pool_step ev p) as [p1|] eqn:Hstep; [|discriminate].
    destruct (step_invariant ev p p1 Hinv Hstep) as [Hinv1 Hp1].
    intros Hrun. destruct (IH p1 Hinv1 Hrun) as [Hinv' Hp'].
    split; [assumption | lia].
Qed.




(** The state in which the call ends. *)
Lemma finished_state p :
  invariant nets chapters p -> pool_finished p = true ->
  Pool.raised p = None /\
  length (Pool.futures p) = length chapters /\
  Pool.results p = List.map snd (batch (length chapters)).
Proof.
  intros [Hs Hc Hr Ht Ho Hres]. unfold finished. rewrite Hr.
  intros [Hlen Hk]%andb_true_iff.
  apply Nat.eqb_eq in Hlen, Hk. rewrite Hres, Hk. now repeat split.
Qed.

End PoolFacts.

(* ===================================================================== *)
(** * The batch *)
(* ===================================================================== *)

Section BatchFacts.

Context `{PageParser}.
Variable nets : nat -> Network.
Variable chapters : list ChapterInfo.t.

Local Abbreviation result_of := (unit_result nets chapters).
Local Abbreviation batch := (successes nets chapters).

Lemma increasing_snoc (l : list nat) (k : nat) :
  StronglySorted lt l -> List.Forall (fun i => (i < k)%nat) l ->
  StronglySorted lt (l ++ [k]).
Proof.
  induction 1 as [|x l Hl IH Hx]; intros Hk; simpl.
  - repeat constructor.
  - inversion Hk as [|? ? Hxk Hlk]; subst. constructor.
    + now apply IH.
    + apply List.Forall_app. split; [assumption | now constructor].
Qed.

Lemma increasing_NoDup (l : list nat) : StronglySorted lt l -> List.NoDup l.
Proof.
  induction 1 as [|x l Hl IH Hx]; constructor; [|assumption].
  intros Hin. rewrite List.Forall_forall in Hx. specialize (Hx x Hin). lia.
Qed.

(** The indices of the successes among the first [k] units are below [k],
    belong to successful units only, and miss none of them. *)
Lemma batch_indices k i :
  In i (List.map fst (batch k)) <-> (i < k)%nat /\ result_of i <> None.
Proof.
  induction k as [|k IH]; [simpl; split; [intros [] | lia]|].
  rewrite successes_S, map_app, in_app_iff, IH. split.
  - intros [[Hi Hr] | Hin]; [split; [lia | assumption]|].
    destruct (result_of k) eqn:Hk; simpl in Hin; [|destruct Hin].
    destruct Hin as [<- | []]. split; [lia | congruence].
  - intros [Hi Hr]. destruct (Nat.eq_dec i k) as [->|Hne].
    + right. destruct (result_of k); [now left | congruence].
    + left. split; [lia | assumption].
Qed.

Lemma batch_increasing k : StronglySorted lt (List.map fst (batch k)).
Proof.
  induction k as [|k IH]; [constructor|].
  rewrite successes_S, map_app.
  destruct (result_of k); simpl; [|now rewrite app_nil_r].
  apply increasing_snoc; [assumption|].
  apply List.Forall_forall. intros i Hi. now apply batch_indices in Hi.
Qed.

(** Each entry of the batch is the result of the unit of its index. *)
Lemma batch_entries k :
  List.map Some (List.map snd (batch k))
  = List.map result_of (List.map fst (batch k)).
Proof.
  induction k as [|k IH]; [reflexivity|].
  rewrite successes_S, !map_app, IH. f_equal.
  destruct (result_of k) eqn:Hk; simpl; [now rewrite Hk | reflexivity].
Qed.


Variable max_workers : Z.

(** What the call returns, whenever the schedule is a complete
    execution of it with a pool that could be built. *)
Lemma download_returns schedule m :
  0 < max_workers ->
  download_chapters_parallel nets chapters max_workers schedule = Some m ->
  m = ([banner max_workers; ExecutorCreated max_workers]
         ++ List.map Submitted (seq 0 (length chapters)) ++ [ExecutorShutdown],
       Return (List.map snd (batch (length chapters)))).
Proof.
  intros Hw. unfold download_chapters_parallel.
  replace (max_workers <=? 0) with false by (symmetry; apply Z.leb_gt; lia).
  destruct (run nets chapters max_workers schedule Pool.init) as [p|] eqn:Hrun;
    [|discriminate].
  destruct (finished chapters p) eqn:Hf; [|discriminate].
  destruct (run_invariant nets chapters max_workers schedule _ _
              (invariant_init nets chapters) Hrun) as [Hinv _].
  destruct (finished_state nets chapters p Hinv Hf) as [-> [-> ->]].
  now intros [= <-].
Qed.

Lemma download_raises_without_workers schedule :
  max_workers <= 0 ->
  download_chapters_parallel nets chapters max_workers schedule
  = Some ([banner max_workers],
          Raise (ValueError (lit "max_workers must be greater than 0"))).
Proof.
  intros Hw. unfold download_chapters_parallel.
  now replace (max_workers <=? 0) with true by (symmetry; apply Z.leb_le; lia).
Qed.


End BatchFacts.

(** C2.  Whatever the chapters, the bound on the workers and the order
    in which the units start and finish: the batch the call returns is
    made of the results of the units at strictly increasing indices of the
    chapter list (so in the order of the chapters and with no index
    twice), these indices being exactly those of the units that
    succeeded. *)
Theorem download_preserves_order `{PageParser} (nets : nat -> Network)
    (chapters : list ChapterInfo.t) (max_workers : Z)
    (schedule : list Event) (log : list Effect) (batch : list Entry.t) :
  download_chapters_parallel nets chapters max_workers schedule
    = Some (log, Return batch) ->
  exists indices : list nat,
    StronglySorted lt indices /\
    List.NoDup indices /\
    (forall i, In i indices <->
               (i < length chapters)%nat /\ unit_result nets chapters i <> None) /\
    List.map Some batch = List.map (unit_result nets chapters) indices.
Proof.
  intros Hcall. destruct (Z_lt_le_dec 0 max_workers) as [Hw|Hw].
  - apply (download_returns nets chapters max_workers schedule _ Hw) in Hcall.
    injection Hcall as _ ->.
    exists (List.map fst (successes nets chapters (length chapters))).
    split; [apply batch_increasing|].
    split; [apply increasing_NoDup, batch_increasing|].
    split; [apply batch_indices | apply batch_entries].
  - rewrite download_raises_without_workers in Hcall by assumption.
    discriminate.
Qed.

Lemma download_preserves_order_witness :
  exists indices : list nat,
    StronglySorted lt indices /\
    List.NoDup indices /\
    (forall i, In i indices <->
               (i < length shelf)%nat /\
               unit_result (H:=toy_parser) shelf_nets shelf i <> None) /\
    List.map Some [Entry.mk (lit "one") (lit "one");
                   Entry.mk (lit "three") (lit "three")]
    = List.map (unit_result (H:=toy_parser) shelf_nets shelf) indices.
Proof.
  apply (download_preserves_order (H:=toy_parser) shelf_nets shelf 2 out_of_order
           ([banner 2; ExecutorCreated 2] ++ List.map Submitted (seq 0 4)
              ++ [ExecutorShutdown])).
  vm_compute. reflexivity.
Defined.



Example every_unit_fails :
  download_chapters_parallel (H:=toy_parser) dead_nets shelf 2 out_of_order
  = Some ([banner 2; ExecutorCreated 2; Submitted 0; Submitted 1; Submitted 2;
           Submitted 3; ExecutorShutdown],
          Return []).
Proof. vm_compute. reflexivity. Qed.

Example some_units_fail :
  download_chapters_parallel (H:=toy_parser) shelf_nets shelf 2 out_of_order
  = Some ([banner 2; ExecutorCreated 2; Submitted 0; Submitted 1; Submitted 2;
           Submitted 3; ExecutorShutdown],
          Return [Entry.mk (lit "one") (lit "one");
                  Entry.mk (lit "three") (lit "three")]).
Proof. vm_compute. reflexivity. Qed.

(** C8, as stated, fails: for the empty list the executor is built all
    the same (line 235 comes before any look at the list), and a bound
    that is not positive makes its constructor raise instead of the call
    returning the empty batch. *)
Lemma empty_list_engages_pool :
  (exists m,
     download_chapters_parallel (H:=toy_parser) dead_nets [] 3 [] = Some m /\
     snd m = Return [] /\ engages_pool m) /\
  (exists m,
     download_chapters_parallel (H:=toy_parser) dead_nets [] 0 [] = Some m /\
     snd m = Raise (ValueError (lit "max_workers must be greater than 0"))).
Proof.
  split.
  - eexists. split; [reflexivity|]. split; [reflexivity|].
    exists 3. simpl. right. now left.
  - eexists. split; reflexivity.
Qed.

(** C8, amended.  For the empty list and a pool of at least one worker
    the call returns the empty batch; nothing can be submitted, started,
    finished or collected, so the empty schedule is its only execution;
    the executor is built and shut down and no unit is handed to it. *)
Theorem download_nothing `{PageParser} (nets : nat -> Network)
    (max_workers : Z) (schedule : list Event) :
  0 < max_workers ->
  (schedule = [] ->
   download_chapters_parallel nets [] max_workers schedule
   = Some ([banner max_workers; ExecutorCreated max_workers; ExecutorShutdown],
           Return [])) /\
  (schedule <> [] ->
   download_chapters_parallel nets [] max_workers schedule = None) /\
  (forall m, download_chapters_parallel nets [] max_workers schedule = Some m ->
     snd m = Return [] /\ ~ submits_work m /\ attempts_made m = 0%nat).
Proof.
  intros Hw.
  assert (Hnil : download_chapters_parallel nets [] max_workers []
                 = Some ([banner max_workers; ExecutorCreated max_workers;
                          ExecutorShutdown], Return [])).
  { unfold download_chapters_parallel.
    now replace (max_workers <=? 0) with false by (symmetry; apply Z.leb_gt; lia). }
  assert (Hcons : schedule <> [] ->
            download_chapters_parallel nets [] max_workers schedule = None).
  { destruct schedule as [|ev rest]; [congruence|]. intros _.
    unfold download_chapters_parallel.
    replace (max_workers <=? 0) with false by (symmetry; apply Z.leb_gt; lia).
    destruct ev as [| |i|]; reflexivity. }
  split; [now intros ->|]. split; [assumption|].
  intros m Hm. destruct schedule as [|ev rest].
  - rewrite Hnil in Hm. injection Hm as <-. split; [reflexivity|].
    split; [|reflexivity].
    intros [i [Hi | [Hi | [Hi | []]]]]; discriminate.
  - rewrite Hcons in Hm; [discriminate | congruence].
Qed.

Lemma download_nothing_witness :
  download_chapters_parallel (H:=toy_parser) dead_nets [] 3 []
  = Some ([banner 3; ExecutorCreated 3; ExecutorShutdown], Return []).
Proof.
  destruct (download_nothing (H:=toy_parser) dead_nets 3 [] ltac:(lia))
    as [Hempty _].
  exact (Hempty eq_refl).
Defined.
